(** * Rule catalog and rule selection of gosec (rules/rulelist.go)

    A shallow embedding of [RuleDefinition], [RuleList], [RulesInfo],
    [NewRuleFilter] and [Generate], with Go maps as stdpp [gmap]s keyed by
    strings, and the properties of the selection algorithm. *)

From stdpp Require Import gmap strings list fin_maps.

Local Open Scope string_scope.

#[local] Set Warnings "-clear-no-such-hyp".

(** ** Data model *)

(** Modelled from the spec: the constructor capabilities ([gosec.RuleBuilder]
    values) named in the catalog are declared in other files of the package;
    the selection code never calls them and only threads them through, so each
    is an opaque token carrying the name the catalog gives it. *)
Inductive RuleBuilder : Type :=
  | NewHardcodedCredentials
  | NewBindsToAllNetworkInterfaces
  | NewUsingUnsafe
  | NewNoErrorCheck
  | NewSSHHostKey
  | NewSSRFCheck
  | NewPprofCheck
  | NewIntegerOverflowCheck
  | NewDecompressionBombCheck
  | NewDirectoryTraversal
  | NewSlowloris
  | NewHTTPServeWithoutTimeouts
  | NewSQLStrFormat
  | NewSQLStrConcat
  | NewTemplateCheck
  | NewSubproc
  | NewMkdirPerms
  | NewFilePerms
  | NewBadTempFile
  | NewReadFile
  | NewArchive
  | NewWritePerms
  | NewOsCreatePerms
  | NewUsesWeakCryptographyHash
  | NewIntermediateTLSCheck
  | NewWeakKeyStrength
  | NewWeakRandCheck
  | NewUsesWeakCryptographyEncryption
  | NewUsesWeakDeprecatedCryptographyHash
  | NewBlocklistedImportMD5
  | NewBlocklistedImportDES
  | NewBlocklistedImportRC4
  | NewBlocklistedImportCGI
  | NewBlocklistedImportSHA1
  | NewBlocklistedImportMD4
  | NewBlocklistedImportRIPEMD160
  | NewImplicitAliasing.

(** [type RuleDefinition struct { ID, Description string; Create gosec.RuleBuilder }] *)
Record RuleDefinition : Type := mkRuleDefinition {
  ID : string;
  Description : string;
  Create : RuleBuilder
}.

(** [type RuleList struct { Rules map[string]RuleDefinition;
                            RuleSuppressed map[string]bool }] *)
Record RuleList : Type := mkRuleList {
  Rules : gmap string RuleDefinition;
  RuleSuppressed : gmap string bool
}.

(** [type RuleFilter func(string) bool] *)
Definition RuleFilter : Type := string -> bool.

(** ** RulesInfo *)

(** The body of [for _, def := range rl.Rules { builders[def.ID] = def.Create }],
    run over the definitions in the order [defs] in which the range statement
    happens to visit them (Go leaves the order of a map range unspecified). *)
Definition range_builders (defs : list RuleDefinition) : gmap string RuleBuilder :=
  foldl (fun builders def => <[ID def := Create def]> builders) ∅ defs.

(** [RulesInfo] for a given visiting order of [rl.Rules]. *)
Definition RulesInfo_in (order : list (string * RuleDefinition)) (rl : RuleList)
  : gmap string RuleBuilder * gmap string bool :=
  (range_builders (order.*2), RuleSuppressed rl).

(** [func (rl RuleList) RulesInfo()], with the map visited in the order of
    [map_to_list]. *)
Definition RulesInfo (rl : RuleList) : gmap string RuleBuilder * gmap string bool :=
  RulesInfo_in (map_to_list (Rules rl)) rl.

(** ** NewRuleFilter *)

(** [for _, rule := range ruleIDs { rulelist[rule] = true }] *)
Definition rulelist_of (ruleIDs : list string) : gmap string bool :=
  foldl (fun rulelist rule => <[rule := true]> rulelist) ∅ ruleIDs.

(** [func NewRuleFilter(action bool, ruleIDs ...string) RuleFilter] *)
Definition NewRuleFilter (action : bool) (ruleIDs : list string) : RuleFilter :=
  let rulelist := rulelist_of ruleIDs in
  fun rule =>
    match rulelist !! rule with
    | Some _ => action
    | None => negb action
    end.

(** ** Generate *)

(** The local slice [rules] of [Generate]. *)
Definition rules : list RuleDefinition := [
  (* misc *)
  mkRuleDefinition "G101" "Look for hardcoded credentials" NewHardcodedCredentials;
  mkRuleDefinition "G102" "Bind to all interfaces" NewBindsToAllNetworkInterfaces;
  mkRuleDefinition "G103" "Audit the use of unsafe block" NewUsingUnsafe;
  mkRuleDefinition "G104" "Audit errors not checked" NewNoErrorCheck;
  mkRuleDefinition "G106" "Audit the use of ssh.InsecureIgnoreHostKey function" NewSSHHostKey;
  mkRuleDefinition "G107" "Url provided to HTTP request as taint input" NewSSRFCheck;
  mkRuleDefinition "G108" "Profiling endpoint is automatically exposed" NewPprofCheck;
  mkRuleDefinition "G109" "Converting strconv.Atoi result to int32/int16" NewIntegerOverflowCheck;
  mkRuleDefinition "G110" "Detect io.Copy instead of io.CopyN when decompression" NewDecompressionBombCheck;
  mkRuleDefinition "G111" "Detect http.Dir('/') as a potential risk" NewDirectoryTraversal;
  mkRuleDefinition "G112" "Detect ReadHeaderTimeout not configured as a potential risk" NewSlowloris;
  mkRuleDefinition "G114" "Use of net/http serve function that has no support for setting timeouts" NewHTTPServeWithoutTimeouts;
  (* injection *)
  mkRuleDefinition "G201" "SQL query construction using format string" NewSQLStrFormat;
  mkRuleDefinition "G202" "SQL query construction using string concatenation" NewSQLStrConcat;
  mkRuleDefinition "G203" "Use of unescaped data in HTML templates" NewTemplateCheck;
  mkRuleDefinition "G204" "Audit use of command execution" NewSubproc;
  (* filesystem *)
  mkRuleDefinition "G301" "Poor file permissions used when creating a directory" NewMkdirPerms;
  mkRuleDefinition "G302" "Poor file permissions used when creation file or using chmod" NewFilePerms;
  mkRuleDefinition "G303" "Creating tempfile using a predictable path" NewBadTempFile;
  mkRuleDefinition "G304" "File path provided as taint input" NewReadFile;
  mkRuleDefinition "G305" "File path traversal when extracting zip archive" NewArchive;
  mkRuleDefinition "G306" "Poor file permissions used when writing to a file" NewWritePerms;
  mkRuleDefinition "G307" "Poor file permissions used when creating a file with os.Create" NewOsCreatePerms;
  (* crypto *)
  mkRuleDefinition "G401" "Detect the usage of MD5 or SHA1" NewUsesWeakCryptographyHash;
  mkRuleDefinition "G402" "Look for bad TLS connection settings" NewIntermediateTLSCheck;
  mkRuleDefinition "G403" "Ensure minimum RSA key length of 2048 bits" NewWeakKeyStrength;
  mkRuleDefinition "G404" "Insecure random number source (rand)" NewWeakRandCheck;
  mkRuleDefinition "G405" "Detect the usage of DES or RC4" NewUsesWeakCryptographyEncryption;
  mkRuleDefinition "G406" "Detect the usage of deprecated MD4 or RIPEMD160" NewUsesWeakDeprecatedCryptographyHash;
  (* blocklist *)
  mkRuleDefinition "G501" "Import blocklist: crypto/md5" NewBlocklistedImportMD5;
  mkRuleDefinition "G502" "Import blocklist: crypto/des" NewBlocklistedImportDES;
  mkRuleDefinition "G503" "Import blocklist: crypto/rc4" NewBlocklistedImportRC4;
  mkRuleDefinition "G504" "Import blocklist: net/http/cgi" NewBlocklistedImportCGI;
  mkRuleDefinition "G505" "Import blocklist: crypto/sha1" NewBlocklistedImportSHA1;
  mkRuleDefinition "G506" "Import blocklist: golang.org/x/crypto/md4" NewBlocklistedImportMD4;
  mkRuleDefinition "G507" "Import blocklist: golang.org/x/crypto/ripemd160" NewBlocklistedImportRIPEMD160;
  (* memory safety *)
  mkRuleDefinition "G601" "Implicit memory aliasing in RangeStmt" NewImplicitAliasing
].

(** The inner loop [for _, filter := range filters { ... }] for the rule [id],
    threading [ruleSuppressedMap].  The boolean of the result tells how the loop
    ended: [true] when it ran to its end, [false] when it left through
    [continue RULES]. *)
Fixpoint filters_loop (trackSuppressions : bool) (id : string)
    (filters : list RuleFilter) (ruleSuppressedMap : gmap string bool)
  : gmap string bool * bool :=
  match filters with
  | [] => (ruleSuppressedMap, true)
  | filter :: filters' =>
      if filter id then
        let ruleSuppressedMap' := <[id := true]> ruleSuppressedMap in
        if negb trackSuppressions then (ruleSuppressedMap', false)
        else filters_loop trackSuppressions id filters' ruleSuppressedMap'
      else filters_loop trackSuppressions id filters' ruleSuppressedMap
  end.

(** One iteration of the outer loop [RULES: for _, rule := range rules { ... }]
    on the two maps under construction. *)
Definition rules_body (trackSuppressions : bool) (filters : list RuleFilter)
    (st : gmap string RuleDefinition * gmap string bool) (rule : RuleDefinition)
  : gmap string RuleDefinition * gmap string bool :=
  let '(ruleMap, ruleSuppressedMap) := st in
  let ruleSuppressedMap0 := <[ID rule := false]> ruleSuppressedMap in
  let '(ruleSuppressedMap1, finished) :=
    filters_loop trackSuppressions (ID rule) filters ruleSuppressedMap0 in
  if finished then (<[ID rule := rule]> ruleMap, ruleSuppressedMap1)
  else (ruleMap, ruleSuppressedMap1).

(** The outer loop over a slice of rule definitions. *)
Definition rules_loop (trackSuppressions : bool) (filters : list RuleFilter)
    (rs : list RuleDefinition) (st : gmap string RuleDefinition * gmap string bool)
  : gmap string RuleDefinition * gmap string bool :=
  foldl (rules_body trackSuppressions filters) st rs.

(** [func Generate(trackSuppressions bool, filters ...RuleFilter) RuleList] *)
Definition Generate (trackSuppressions : bool) (filters : list RuleFilter) : RuleList :=
  let '(ruleMap, ruleSuppressedMap) :=
    rules_loop trackSuppressions filters rules (∅, ∅) in
  mkRuleList ruleMap ruleSuppressedMap.

(** ** Vocabulary of the statements *)

(** The IDs of the catalog, in catalog order. *)
Definition catalog_ids : list string := ID <$> rules.

(** The catalog entry of an ID: the first definition of [rs] carrying it. *)
Definition catalog_entry (rs : list RuleDefinition) (k : string) : option RuleDefinition :=
  List.find (fun d => bool_decide (ID d = k)) rs.

(** Some filter of the sequence returns [true] on [id]. *)
Definition any_match (filters : list RuleFilter) (id : string) : bool :=
  existsb (fun filter => filter id) filters.

(** A rule reaches [ruleMap[rule.ID] = rule] exactly when the inner loop is
    not left through [continue RULES]. *)
Definition active (trackSuppressions : bool) (filters : list RuleFilter) (id : string) : bool :=
  negb (any_match filters id) || trackSuppressions.

(** A [RuleList] whose only definition is stored under a key that is not its ID. *)
Definition mislabelled_list : RuleList :=
  mkRuleList
    {["G999" := mkRuleDefinition "G101" "Look for hardcoded credentials"
                  NewHardcodedCredentials]}
    ∅.

(** The shape of the IDs the catalog uses: the letter G (code 71) followed by
    three decimal digits (codes 48 to 57), the first of them the category, from
    1 to 6. *)
Definition is_digit (c : Ascii.ascii) : bool :=
  (48 <=? Ascii.nat_of_ascii c)%nat && (Ascii.nat_of_ascii c <=? 57)%nat.

Definition is_rule_id (s : string) : bool :=
  match s with
  | String g (String c (String d1 (String d0 EmptyString))) =>
      (Ascii.nat_of_ascii g =? 71)%nat
      && ((49 <=? Ascii.nat_of_ascii c)%nat && (Ascii.nat_of_ascii c <=? 54)%nat)
      && is_digit d1 && is_digit d0
  | _ => false
  end.

(** ** The filter predicate *)

Section Filter.

Lemma rulelist_of_lookup_from (ruleIDs : list string) (m0 : gmap string bool) (x : string) :
  foldl (fun rulelist rule => <[rule := true]> rulelist) m0 ruleIDs !! x
  = if bool_decide (x ∈ ruleIDs) then Some true else m0 !! x.
Proof.
  revert m0. induction ruleIDs as [|r ids IH]; intros m0.
  - rewrite bool_decide_eq_false_2; [done | apply not_elem_of_nil].
  - cbn [foldl]. rewrite IH. destruct (decide (x ∈ ids)) as [Hin | Hnin].
    + rewrite !bool_decide_eq_true_2; [done | by right | done].
    + rewrite (bool_decide_eq_false_2 _ Hnin).
      destruct (decide (r = x)) as [-> | Hne].
      * rewrite lookup_insert_eq, bool_decide_eq_true_2; [done | by left].
      * rewrite lookup_insert_ne; [|done].
        rewrite bool_decide_eq_false_2; [done |].
        intros [-> | ?]%elem_of_cons; congruence.
Qed.

Lemma rulelist_of_lookup (ruleIDs : list string) (x : string) :
  rulelist_of ruleIDs !! x = if bool_decide (x ∈ ruleIDs) then Some true else None.
Proof. unfold rulelist_of. by rewrite rulelist_of_lookup_from, lookup_empty. Qed.

Lemma NewRuleFilter_apply (action : bool) (ruleIDs : list string) (x : string) :
  NewRuleFilter action ruleIDs x = if bool_decide (x ∈ ruleIDs) then action else negb action.
Proof.
  unfold NewRuleFilter. rewrite rulelist_of_lookup. by case_bool_decide.
Qed.

(** Two target lists with the same members outside [u] give filters that
    agree everywhere outside [u]. *)
Lemma NewRuleFilter_agree (action : bool) (ids ids' : list string) (u x : string) :
  (forall y, y ≠ u -> y ∈ ids <-> y ∈ ids') ->
  x ≠ u ->
  NewRuleFilter action ids x = NewRuleFilter action ids' x.
Proof.
  intros Hsame Hx. rewrite !NewRuleFilter_apply.
  apply (Hsame x) in Hx. do 2 case_bool_decide; tauto.
Qed.

End Filter.

(** ** The generator loops *)

Section Loops.

Variable trackSuppressions : bool.
Variable filters : list RuleFilter.

Lemma filters_loop_spec (id : string) (fs : list RuleFilter) (sup : gmap string bool) :
  filters_loop trackSuppressions id fs sup
  = (if any_match fs id then <[id := true]> sup else sup,
     negb (any_match fs id) || trackSuppressions).
Proof.
  revert sup. induction fs as [|f fs IH]; intros sup; simpl; [done|].
  destruct (f id) eqn:Hf; simpl.
  - destruct trackSuppressions eqn:Ht; simpl; [|done].
    rewrite IH. rewrite insert_insert_eq.
    by destruct (any_match fs id).
  - apply IH.
Qed.

Lemma rules_body_spec (rm : gmap string RuleDefinition) (sm : gmap string bool)
    (rule : RuleDefinition) :
  rules_body trackSuppressions filters (rm, sm) rule
  = (if active trackSuppressions filters (ID rule) then <[ID rule := rule]> rm else rm,
     <[ID rule := any_match filters (ID rule)]> sm).
Proof.
  unfold rules_body, active. rewrite filters_loop_spec.
  destruct (any_match filters (ID rule)); simpl.
  - rewrite insert_insert_eq. by destruct trackSuppressions.
  - done.
Qed.

Lemma rules_loop_cons rule rs st :
  rules_loop trackSuppressions filters (rule :: rs) st
  = rules_loop trackSuppressions filters rs (rules_body trackSuppressions filters st rule).
Proof. done. Qed.

(** The suppression ledger after the loop: every ID of the slice carries the
    OR of the filters, every other key is as before. *)
Lemma rules_loop_suppressed (rs : list RuleDefinition) rm sm (k : string) :
  (rules_loop trackSuppressions filters rs (rm, sm)).2 !! k
  = if bool_decide (k ∈ ID <$> rs) then Some (any_match filters k) else sm !! k.
Proof.
  revert rm sm. induction rs as [|r rs IH]; intros rm sm.
  - rewrite bool_decide_eq_false_2; [done | apply not_elem_of_nil].
  - rewrite rules_loop_cons, rules_body_spec, IH, fmap_cons.
    destruct (decide (k ∈ ID <$> rs)) as [Hin | Hnin].
    + rewrite !bool_decide_eq_true_2; [done | by right | done].
    + rewrite (bool_decide_eq_false_2 _ Hnin).
      destruct (decide (ID r = k)) as [<- | Hne].
      * rewrite lookup_insert_eq, bool_decide_eq_true_2; [done | by left].
      * rewrite lookup_insert_ne; [|done].
        rewrite bool_decide_eq_false_2; [done |].
        intros [-> | ?]%elem_of_cons; congruence.
Qed.

Lemma catalog_entry_None (rs : list RuleDefinition) (k : string) :
  k ∉ ID <$> rs -> catalog_entry rs k = None.
Proof.
  induction rs as [|r rs IH]; [done|]. rewrite fmap_cons, not_elem_of_cons.
  intros [Hne Hnin]. simpl. rewrite bool_decide_eq_false_2; [by apply IH | congruence].
Qed.

Lemma catalog_entry_Some (rs : list RuleDefinition) (k : string) (d : RuleDefinition) :
  catalog_entry rs k = Some d -> d ∈ rs /\ ID d = k.
Proof.
  induction rs as [|r rs IH]; [done|]. simpl. case_bool_decide as Hk.
  - intros [= <-]. split; [by left | done].
  - intros [Hin Hid]%IH. split; [by right | done].
Qed.

Lemma catalog_entry_elem (rs : list RuleDefinition) (d : RuleDefinition) :
  NoDup (ID <$> rs) -> d ∈ rs -> catalog_entry rs (ID d) = Some d.
Proof.
  induction rs as [|r rs IH]; [by intros _ ?%elem_of_nil|].
  rewrite fmap_cons, NoDup_cons. intros [Hfresh Hnd] [-> | Hin]%elem_of_cons; simpl.
  - by rewrite bool_decide_eq_true_2.
  - rewrite bool_decide_eq_false_2; [by apply IH|].
    intros Heq. apply Hfresh. rewrite Heq. by apply list_elem_of_fmap_2.
Qed.

(** The active set after the loop, for a slice without repeated IDs. *)
Lemma rules_loop_rules (rs : list RuleDefinition) rm sm (k : string) :
  NoDup (ID <$> rs) ->
  (rules_loop trackSuppressions filters rs (rm, sm)).1 !! k
  = match catalog_entry rs k with
    | Some d => if active trackSuppressions filters k then Some d else rm !! k
    | None => rm !! k
    end.
Proof.
  revert rm sm. induction rs as [|r rs IH]; intros rm sm; [done|].
  rewrite fmap_cons, NoDup_cons. intros [Hfresh Hnd].
  rewrite rules_loop_cons, rules_body_spec, IH; [|done]. simpl.
  case_bool_decide as Hk.
  - subst k. rewrite catalog_entry_None; [|done].
    destruct (active trackSuppressions filters (ID r)); [by rewrite lookup_insert_eq | done].
  - assert (Hpre : (if active trackSuppressions filters (ID r) then <[ID r := r]> rm else rm) !! k = rm !! k).
    { destruct (active trackSuppressions filters (ID r)); [by rewrite lookup_insert_ne | done]. }
    by rewrite Hpre.
Qed.

End Loops.

(** ** Facts about [Generate] *)

Lemma any_match_true (filters : list RuleFilter) (id : string) :
  any_match filters id = true <-> exists f, f ∈ filters /\ f id = true.
Proof.
  unfold any_match. rewrite existsb_exists. setoid_rewrite list_elem_of_In. done.
Qed.

Lemma any_match_false (filters : list RuleFilter) (id : string) :
  any_match filters id = false <-> forall f, f ∈ filters -> f id = false.
Proof.
  rewrite <- not_true_iff_false, any_match_true. split.
  - intros Hno f Hf. apply not_true_iff_false. intros Ht. apply Hno. eauto.
  - intros Hall (f & Hf & Ht). rewrite (Hall f Hf) in Ht. discriminate.
Qed.

Lemma rules_NoDup : NoDup catalog_ids.
Proof. apply (bool_decide_unpack _). vm_compute. exact I. Qed.

Lemma Generate_Rules (t : bool) (fs : list RuleFilter) :
  Rules (Generate t fs) = (rules_loop t fs rules (∅, ∅)).1.
Proof. unfold Generate. by destruct (rules_loop t fs rules (∅, ∅)). Qed.

Lemma Generate_RuleSuppressed (t : bool) (fs : list RuleFilter) :
  RuleSuppressed (Generate t fs) = (rules_loop t fs rules (∅, ∅)).2.
Proof. unfold Generate. by destruct (rules_loop t fs rules (∅, ∅)). Qed.

Lemma Generate_Rules_lookup (t : bool) (fs : list RuleFilter) (k : string) :
  Rules (Generate t fs) !! k
  = match catalog_entry rules k with
    | Some d => if active t fs k then Some d else None
    | None => None
    end.
Proof.
  rewrite Generate_Rules, rules_loop_rules by apply rules_NoDup.
  by rewrite lookup_empty.
Qed.

Lemma Generate_RuleSuppressed_lookup (t : bool) (fs : list RuleFilter) (k : string) :
  RuleSuppressed (Generate t fs) !! k
  = if bool_decide (k ∈ catalog_ids) then Some (any_match fs k) else None.
Proof.
  rewrite Generate_RuleSuppressed, rules_loop_suppressed. by rewrite lookup_empty.
Qed.

Lemma Generate_RuleSuppressed_catalog (t : bool) (fs : list RuleFilter) (id : string) :
  id ∈ catalog_ids -> RuleSuppressed (Generate t fs) !! id = Some (any_match fs id).
Proof.
  intros Hin. by rewrite Generate_RuleSuppressed_lookup, bool_decide_eq_true_2.
Qed.

Lemma catalog_entry_of_id (id : string) :
  id ∈ catalog_ids -> exists d, catalog_entry rules id = Some d /\ d ∈ rules /\ ID d = id.
Proof.
  intros (d & -> & Hd)%list_elem_of_fmap. exists d.
  split; [by apply catalog_entry_elem; [apply rules_NoDup|] | done].
Qed.

Lemma Generate_Rules_catalog (t : bool) (fs : list RuleFilter) (d : RuleDefinition) :
  d ∈ rules ->
  Rules (Generate t fs) !! ID d = if active t fs (ID d) then Some d else None.
Proof.
  intros Hd. rewrite Generate_Rules_lookup.
  by rewrite (catalog_entry_elem rules d rules_NoDup Hd).
Qed.

Lemma Generate_RuleSuppressed_dom (t : bool) (fs : list RuleFilter) :
  dom (RuleSuppressed (Generate t fs)) = list_to_set catalog_ids.
Proof.
  apply set_eq. intros k.
  rewrite elem_of_dom, elem_of_list_to_set, Generate_RuleSuppressed_lookup.
  case_bool_decide; split; try done; by intros [? ?].
Qed.

(** Membership of a catalog ID in the active set. *)
Lemma Generate_Rules_dom_catalog (t : bool) (fs : list RuleFilter) (id : string) :
  id ∈ catalog_ids -> id ∈ dom (Rules (Generate t fs)) <-> active t fs id = true.
Proof.
  intros (d & Hd & _ & _)%catalog_entry_of_id.
  rewrite elem_of_dom, Generate_Rules_lookup, Hd.
  destruct (active t fs id); split; try done; by intros [? ?].
Qed.

(** [Generate] looks at its filters only on the IDs of the catalog. *)
Lemma Generate_ext (t : bool) (fs gs : list RuleFilter) :
  (forall id, id ∈ catalog_ids -> any_match fs id = any_match gs id) ->
  Generate t fs = Generate t gs.
Proof.
  intros Hagree.
  assert (HR : Rules (Generate t fs) = Rules (Generate t gs)).
  { apply map_eq. intros k. rewrite !Generate_Rules_lookup.
    destruct (catalog_entry rules k) as [d|] eqn:Hk; [|done].
    apply catalog_entry_Some in Hk as [Hd <-].
    unfold active. by rewrite Hagree by by apply list_elem_of_fmap_2. }
  assert (HS : RuleSuppressed (Generate t fs) = RuleSuppressed (Generate t gs)).
  { apply map_eq. intros k. rewrite !Generate_RuleSuppressed_lookup.
    case_bool_decide; [by rewrite Hagree | done]. }
  destruct (Generate t fs), (Generate t gs). simpl in *. by subst.
Qed.

Lemma any_match_app (fs gs : list RuleFilter) (id : string) :
  any_match (fs ++ gs) id = any_match fs id || any_match gs id.
Proof. unfold any_match. apply existsb_app. Qed.

Lemma any_match_single (f : RuleFilter) (id : string) : any_match [f] id = f id.
Proof. unfold any_match. simpl. apply orb_false_r. Qed.

Lemma G101_in_catalog : "G101" ∈ catalog_ids.
Proof. unfold catalog_ids, rules. rewrite fmap_cons. by left. Qed.

Lemma single_target_member (id : string) : id ∈ ["G101"] <-> id = "G101".
Proof. rewrite elem_of_cons, elem_of_nil. tauto. Qed.

(** The exclude filter on G101, applied to any ID. *)
Lemma exclude_G101_apply (id : string) :
  NewRuleFilter true ["G101"] id = bool_decide (id = "G101").
Proof.
  rewrite NewRuleFilter_apply.
  do 2 case_bool_decide; rewrite single_target_member in *; done.
Qed.

(** The include-only filter on G101, applied to any ID. *)
Lemma include_G101_apply (id : string) :
  NewRuleFilter false ["G101"] id = negb (bool_decide (id = "G101")).
Proof.
  rewrite NewRuleFilter_apply.
  do 2 case_bool_decide; rewrite single_target_member in *; done.
Qed.

(** ** The selection policy *)

(** C1: with [trackSuppressions = false] a catalog rule matched by at least one
    filter is not a key of [Rules]; with [trackSuppressions = true] every
    catalog rule is stored in [Rules] under its ID, whatever the filters say.
    In particular [Generate(true, NewRuleFilter(true, "G101"))] has G101 in
    [Rules] and [RuleSuppressed["G101"] = true] at once. *)
Theorem Generate_active_set_policy (filters : list RuleFilter) :
  (forall d, d ∈ rules ->
     (exists f, f ∈ filters /\ f (ID d) = true) ->
     ID d ∉ dom (Rules (Generate false filters)))
  /\ (forall d, d ∈ rules ->
        Rules (Generate true filters) !! ID d = Some d
        /\ ID d ∈ dom (Rules (Generate true filters)))
  /\ ("G101" ∈ dom (Rules (Generate true [NewRuleFilter true ["G101"]]))
      /\ RuleSuppressed (Generate true [NewRuleFilter true ["G101"]]) !! "G101" = Some true).
Proof.
  assert (Hon : forall fs d, d ∈ rules -> Rules (Generate true fs) !! ID d = Some d).
  { intros fs d Hd. rewrite Generate_Rules_catalog by done.
    unfold active. by rewrite orb_true_r. }
  split; [|split].
  - intros d Hd Hm%any_match_true. rewrite not_elem_of_dom.
    rewrite Generate_Rules_catalog by done. unfold active. by rewrite Hm.
  - intros d Hd. split; [by apply Hon|].
    rewrite elem_of_dom, Hon by done. by eexists.
  - split.
    + apply Generate_Rules_dom_catalog; [apply G101_in_catalog|].
      unfold active. apply orb_true_r.
    + rewrite Generate_RuleSuppressed_catalog by apply G101_in_catalog.
      by rewrite any_match_single, exclude_G101_apply.
Qed.

Lemma Generate_active_set_policy_witness :
  "G101" ∉ dom (Rules (Generate false [NewRuleFilter true ["G101"]])).
Proof.
  refine (proj1 (Generate_active_set_policy [NewRuleFilter true ["G101"]])
            (mkRuleDefinition "G101" "Look for hardcoded credentials"
               NewHardcodedCredentials) _ _).
  - unfold rules. by left.
  - exists (NewRuleFilter true ["G101"]). split; [by left | vm_compute; reflexivity].
Defined.

(** C2: the predicate built by [NewRuleFilter a ids] returns [a] on the members
    of [ids] and the negation of [a] on every other string: [true] exactly on
    the members for an exclude filter, [true] exactly on the non-members for an
    include-only filter.  Its value is a function of [a], of the membership of
    the argument in [ids], and of nothing else. *)
Theorem NewRuleFilter_semantics (a : bool) (ids : list string) (x : string) :
  NewRuleFilter a ids x = (if bool_decide (x ∈ ids) then a else negb a)
  /\ (NewRuleFilter true ids x = true <-> x ∈ ids)
  /\ (NewRuleFilter false ids x = true <-> x ∉ ids).
Proof.
  rewrite !NewRuleFilter_apply. split; [done|].
  split; case_bool_decide; simpl; split; done.
Qed.

(** C3: [Generate(false, NewRuleFilter(true, "G101"))] has no key G101 in
    [Rules], has [RuleSuppressed["G101"] = true], and every other catalog ID is
    a key of [Rules] with its suppression flag [false]. *)
Theorem Generate_exclude_G101 :
  let rl := Generate false [NewRuleFilter true ["G101"]] in
  ("G101" ∉ dom (Rules rl))
  /\ RuleSuppressed rl !! "G101" = Some true
  /\ forall id, id ∈ catalog_ids -> id ≠ "G101" ->
       id ∈ dom (Rules rl) /\ RuleSuppressed rl !! id = Some false.
Proof.
  cbv zeta. split; [|split].
  - rewrite Generate_Rules_dom_catalog by apply G101_in_catalog.
    unfold active. by rewrite any_match_single, exclude_G101_apply.
  - rewrite Generate_RuleSuppressed_catalog by apply G101_in_catalog.
    by rewrite any_match_single, exclude_G101_apply.
  - intros id Hin Hne.
    assert (Hm : any_match [NewRuleFilter true ["G101"]] id = false).
    { by rewrite any_match_single, exclude_G101_apply, bool_decide_eq_false_2. }
    split.
    + apply Generate_Rules_dom_catalog; [done|]. unfold active. by rewrite Hm.
    + by rewrite Generate_RuleSuppressed_catalog, Hm.
Qed.

Lemma Generate_exclude_G101_witness :
  "G102" ∈ dom (Rules (Generate false [NewRuleFilter true ["G101"]]))
  /\ RuleSuppressed (Generate false [NewRuleFilter true ["G101"]]) !! "G102" = Some false.
Proof.
  refine (proj2 (proj2 Generate_exclude_G101) "G102" _ _).
  - unfold catalog_ids, rules. rewrite !fmap_cons. right. by left.
  - discriminate.
Defined.

(** C4: [Generate(false, NewRuleFilter(false, "G101"))] has the single key G101
    in [Rules]; its [RuleSuppressed] gives [false] to G101 and [true] to every
    other catalog ID. *)
Theorem Generate_include_only_G101 :
  let rl := Generate false [NewRuleFilter false ["G101"]] in
  dom (Rules rl) = {["G101"]}
  /\ RuleSuppressed rl !! "G101" = Some false
  /\ forall id, id ∈ catalog_ids -> id ≠ "G101" -> RuleSuppressed rl !! id = Some true.
Proof.
  cbv zeta. split; [|split].
  - apply set_eq. intros k. rewrite elem_of_singleton, elem_of_dom.
    rewrite Generate_Rules_lookup.
    destruct (catalog_entry rules k) as [d|] eqn:Hk.
    + apply catalog_entry_Some in Hk as [_ <-].
      unfold active. rewrite any_match_single, include_G101_apply, negb_involutive, orb_false_r.
      case_bool_decide; split; try done; by intros [? ?].
    + split; [by intros [? ?]|]. intros ->.
      vm_compute in Hk. discriminate Hk.
  - rewrite Generate_RuleSuppressed_catalog by apply G101_in_catalog.
    by rewrite any_match_single, include_G101_apply.
  - intros id Hin Hne. rewrite Generate_RuleSuppressed_catalog by done.
    by rewrite any_match_single, include_G101_apply, bool_decide_eq_false_2.
Qed.

Lemma Generate_include_only_G101_witness :
  RuleSuppressed (Generate false [NewRuleFilter false ["G101"]]) !! "G601" = Some true.
Proof.
  refine (proj2 (proj2 Generate_include_only_G101) "G601" _ _).
  - apply (bool_decide_unpack _). vm_compute. exact I.
  - discriminate.
Defined.

(** ** The suppression ledger *)

Lemma catalog_ids_length : length catalog_ids = 37.
Proof. reflexivity. Qed.

Lemma Generate_RuleSuppressed_size (t : bool) (fs : list RuleFilter) :
  size (dom (RuleSuppressed (Generate t fs))) = 37.
Proof.
  rewrite Generate_RuleSuppressed_dom, size_list_to_set by apply rules_NoDup.
  apply catalog_ids_length.
Qed.

(** C5, as stated, fails on the count: already without filters the key set of
    [RuleSuppressed] is the set of catalog IDs but it does not have 33 elements. *)
Lemma RuleSuppressed_keys_not_33 :
  ~ (dom (RuleSuppressed (Generate false [])) = list_to_set catalog_ids
     /\ size (dom (RuleSuppressed (Generate false []))) = 33).
Proof.
  intros [_ Hsize]. rewrite Generate_RuleSuppressed_size in Hsize. discriminate Hsize.
Qed.

(** C5, amended: for every [trackSuppressions] and every sequence of filters
    the key set of [RuleSuppressed] is exactly the set of the catalog IDs, one
    entry per ID; the catalog has 37 pairwise distinct IDs, so the map has 37
    keys. *)
Theorem Generate_RuleSuppressed_keys (t : bool) (fs : list RuleFilter) :
  dom (RuleSuppressed (Generate t fs)) = list_to_set catalog_ids
  /\ NoDup catalog_ids
  /\ length rules = 37
  /\ size (dom (RuleSuppressed (Generate t fs))) = 37.
Proof.
  split; [apply Generate_RuleSuppressed_dom|].
  split; [apply rules_NoDup|].
  split; [reflexivity | apply Generate_RuleSuppressed_size].
Qed.

(** C6: the suppression flag of a catalog ID is the OR of the filters on that
    ID: it is [true] exactly when some supplied filter returns [true] on it and
    [false] exactly when all of them return [false], for either value of
    [trackSuppressions]; hence [Generate(t, A, B)] and [Generate(t, B, A)]
    return the same [RuleSuppressed] map. *)
Theorem Generate_RuleSuppressed_or (t : bool) (A B : RuleFilter)
    (filters : list RuleFilter) :
  RuleSuppressed (Generate t [A; B]) = RuleSuppressed (Generate t [B; A])
  /\ forall id, id ∈ catalog_ids ->
       (RuleSuppressed (Generate t filters) !! id = Some true
        <-> exists f, f ∈ filters /\ f id = true)
       /\ (RuleSuppressed (Generate t filters) !! id = Some false
           <-> forall f, f ∈ filters -> f id = false).
Proof.
  split.
  - apply map_eq. intros k. rewrite !Generate_RuleSuppressed_lookup.
    case_bool_decide; [|done]. unfold any_match. simpl.
    by rewrite !orb_false_r, orb_comm.
  - intros id Hin. rewrite Generate_RuleSuppressed_catalog by done.
    rewrite <- any_match_true, <- any_match_false.
    split; (split; [by intros [= ->] | by intros ->]).
Qed.

Lemma Generate_RuleSuppressed_or_witness :
  RuleSuppressed (Generate false [NewRuleFilter true ["G101"]; NewRuleFilter false ["G102"]])
    !! "G102" = Some false
  <-> forall f, f ∈ [NewRuleFilter true ["G101"]; NewRuleFilter false ["G102"]] ->
        f "G102" = false.
Proof.
  refine (proj2 (proj2 (Generate_RuleSuppressed_or false (NewRuleFilter true ["G101"])
                          (NewRuleFilter false ["G102"])
                          [NewRuleFilter true ["G101"]; NewRuleFilter false ["G102"]])
                   "G102" _)).
  apply (bool_decide_unpack _). vm_compute. exact I.
Defined.

(** ** The projection [RulesInfo] *)

Section Projection.

Lemma range_builders_dom_from (defs : list RuleDefinition) (b0 : gmap string RuleBuilder) :
  dom (foldl (fun builders def => <[ID def := Create def]> builders) b0 defs)
  = list_to_set (ID <$> defs) ∪ dom b0.
Proof.
  revert b0. induction defs as [|d defs IH]; intros b0.
  - simpl. set_solver.
  - cbn [foldl]. rewrite IH, dom_insert_L, fmap_cons. set_solver.
Qed.

(** Whatever the list holds, the keys of the constructor map are the [ID]
    fields of the stored definitions. *)
Lemma range_builders_dom (defs : list RuleDefinition) :
  dom (range_builders defs) = list_to_set (ID <$> defs).
Proof. unfold range_builders. rewrite range_builders_dom_from. set_solver. Qed.

Lemma range_builders_keyed_from (order : list (string * RuleDefinition))
    (b0 : gmap string RuleBuilder) (k : string) :
  NoDup (order.*1) ->
  (forall k' d, (k', d) ∈ order -> ID d = k') ->
  foldl (fun builders def => <[ID def := Create def]> builders) b0 (order.*2) !! k
  = match (list_to_map order : gmap string RuleDefinition) !! k with
    | Some d => Some (Create d)
    | None => b0 !! k
    end.
Proof.
  revert b0. induction order as [|[k1 d1] order IH]; intros b0 Hnd Hkeyed; [done|].
  rewrite fmap_cons, NoDup_cons in Hnd. destruct Hnd as [Hfresh Hnd].
  assert (Hk1 : ID d1 = k1) by (apply Hkeyed; by left).
  rewrite fmap_cons. cbn [foldl snd]. rewrite IH; [|done|].
  - rewrite list_to_map_cons, Hk1.
    destruct (decide (k1 = k)) as [<- | Hne].
    + rewrite lookup_insert_eq.
      rewrite (not_elem_of_list_to_map_1 order k1) by done.
      by rewrite lookup_insert_eq.
    + rewrite !lookup_insert_ne by done. done.
  - intros k' d Hin. apply Hkeyed. by right.
Qed.

Lemma range_builders_keyed (m : gmap string RuleDefinition)
    (order : list (string * RuleDefinition)) :
  order ≡ₚ map_to_list m ->
  (forall k d, m !! k = Some d -> ID d = k) ->
  range_builders (order.*2) = Create <$> m.
Proof.
  intros Hperm Hkeyed.
  assert (Hnd : NoDup (order.*1)).
  { rewrite Hperm. apply NoDup_fst_map_to_list. }
  apply map_eq. intros k. unfold range_builders.
  rewrite range_builders_keyed_from; [|done|].
  - rewrite (list_to_map_proper order (map_to_list m)) by done.
    rewrite list_to_map_to_list, lookup_fmap, lookup_empty.
    by destruct (m !! k).
  - intros k' d Hin. apply Hkeyed. apply elem_of_map_to_list. by rewrite <- Hperm.
Qed.

End Projection.

(** C7, as stated, fails for a [RuleList] that stores a definition under a key
    other than its [ID]: the constructor map is keyed by [def.ID]. *)
Lemma RulesInfo_mislabelled_keys :
  dom (RulesInfo mislabelled_list).1 ≠ dom (Rules mislabelled_list).
Proof.
  unfold RulesInfo, RulesInfo_in, mislabelled_list. cbn [Rules fst].
  rewrite map_to_list_singleton, range_builders_dom, dom_singleton_L. simpl.
  intros Heq. assert (Hin : "G101" ∈ ({["G999"]} : gset string)).
  { rewrite <- Heq. set_solver. }
  apply elem_of_singleton in Hin. discriminate Hin.
Qed.

(** Every definition [Generate] stores sits under its own ID and is the
    catalog entry of that ID. *)
Lemma Generate_Rules_keyed (t : bool) (fs : list RuleFilter) (k : string) (d : RuleDefinition) :
  Rules (Generate t fs) !! k = Some d -> catalog_entry rules k = Some d /\ ID d = k.
Proof.
  rewrite Generate_Rules_lookup.
  destruct (catalog_entry rules k) as [d'|] eqn:Hk; [|done].
  destruct (active t fs k); [|done]. intros [= <-].
  split; [done | by apply catalog_entry_Some in Hk as [_ ?]].
Qed.

(** C7, amended: for every [RuleList] whose [Rules] map stores each definition
    under its own ID (as every result of [Generate] does), and for every order
    in which the range statement visits the map, the first map of [RulesInfo]
    has the key set of [Rules] (it maps each key to the [Create] field stored
    there) and the second map is [RuleSuppressed] unchanged. *)
Theorem RulesInfo_keyed (rl : RuleList) (order : list (string * RuleDefinition)) :
  (RulesInfo rl).2 = RuleSuppressed rl
  /\ (RulesInfo_in order rl).2 = RuleSuppressed rl
  /\ (order ≡ₚ map_to_list (Rules rl) ->
      (forall k d, Rules rl !! k = Some d -> ID d = k) ->
      dom (RulesInfo_in order rl).1 = dom (Rules rl)
      /\ (RulesInfo_in order rl).1 = Create <$> Rules rl
      /\ RulesInfo rl = RulesInfo_in order rl).
Proof.
  split; [done|]. split; [done|].
  intros Hperm Hkeyed. unfold RulesInfo, RulesInfo_in. cbn [fst snd].
  rewrite (range_builders_keyed (Rules rl) order) by done.
  rewrite (range_builders_keyed (Rules rl) (map_to_list (Rules rl))) by done.
  by rewrite dom_fmap_L.
Qed.

Lemma RulesInfo_keyed_witness :
  dom (RulesInfo_in (map_to_list (Rules (Generate true []))) (Generate true [])).1
  = dom (Rules (Generate true [])).
Proof.
  refine (proj1 (proj2 (proj2 (RulesInfo_keyed (Generate true [])
                                 (map_to_list (Rules (Generate true []))))) _ _)).
  - reflexivity.
  - intros k d Hk. by apply Generate_Rules_keyed in Hk as [_ ?].
Defined.

(** ** Unknown IDs, keying and the active set *)

(** C8: an ID [u] outside the catalog is inert in a filter's target list.  For
    either value of [trackSuppressions], any action flag, and whatever filters
    come before and after, adding [u] to the target list of a filter built by
    [NewRuleFilter], or removing all its occurrences from it, leaves the whole
    result of [Generate] unchanged: same [Rules] (so same key set and same
    stored definitions) and same [RuleSuppressed]. *)
Theorem Generate_unknown_id_inert (t a : bool) (ids : list string) (u : string)
    (before after : list RuleFilter) :
  u ∉ catalog_ids ->
  Generate t (before ++ NewRuleFilter a (u :: ids) :: after)
  = Generate t (before ++ NewRuleFilter a ids :: after)
  /\ Generate t (before ++ NewRuleFilter a (filter (fun x => x ≠ u) ids) :: after)
     = Generate t (before ++ NewRuleFilter a ids :: after)
  /\ dom (Rules (Generate t (before ++ NewRuleFilter a (u :: ids) :: after)))
     = dom (Rules (Generate t (before ++ NewRuleFilter a ids :: after)))
  /\ RuleSuppressed (Generate t (before ++ NewRuleFilter a (u :: ids) :: after))
     = RuleSuppressed (Generate t (before ++ NewRuleFilter a ids :: after)).
Proof.
  intros Hu.
  assert (Hctx : forall ids1 ids2,
    (forall y, y ≠ u -> y ∈ ids1 <-> y ∈ ids2) ->
    Generate t (before ++ NewRuleFilter a ids1 :: after)
    = Generate t (before ++ NewRuleFilter a ids2 :: after)).
  { intros ids1 ids2 Hsame. apply Generate_ext. intros id Hid.
    rewrite !any_match_app. f_equal. unfold any_match. cbn [existsb]. f_equal.
    apply (NewRuleFilter_agree a ids1 ids2 u); [done|]. by intros ->. }
  assert (Hadd : Generate t (before ++ NewRuleFilter a (u :: ids) :: after)
                 = Generate t (before ++ NewRuleFilter a ids :: after)).
  { apply Hctx. intros y Hy. rewrite elem_of_cons. tauto. }
  split; [done|]. split; [|by rewrite Hadd].
  apply Hctx. intros y Hy. rewrite list_elem_of_filter. tauto.
Qed.

Lemma Generate_unknown_id_inert_witness :
  Generate false ([] ++ NewRuleFilter true ["G999"; "G101"] :: [])
  = Generate false ([] ++ NewRuleFilter true ["G101"] :: []).
Proof.
  refine (proj1 (Generate_unknown_id_inert false true ["G101"] "G999" [] [] _)).
  apply (bool_decide_unpack _). vm_compute. exact I.
Defined.

(** C9: in every result of [Generate], each key [k] of [Rules] holds a
    definition whose [ID] is [k] and which is the catalog entry of [k] (so its
    [Description] and [Create] are the catalog's), and every key of [Rules] is
    a key of [RuleSuppressed]. *)
Theorem Generate_keyed_consistently (t : bool) (fs : list RuleFilter)
    (k : string) (d : RuleDefinition) :
  Rules (Generate t fs) !! k = Some d ->
  ID d = k
  /\ catalog_entry rules k = Some d
  /\ d ∈ rules
  /\ k ∈ dom (RuleSuppressed (Generate t fs))
  /\ dom (Rules (Generate t fs)) ⊆ dom (RuleSuppressed (Generate t fs)).
Proof.
  assert (Hsub : forall k' d', Rules (Generate t fs) !! k' = Some d' ->
                   k' ∈ dom (RuleSuppressed (Generate t fs))).
  { intros k' d' [Hk' <-]%Generate_Rules_keyed.
    apply catalog_entry_Some in Hk' as [Hd' _].
    rewrite Generate_RuleSuppressed_dom, elem_of_list_to_set.
    by apply list_elem_of_fmap_2. }
  intros Hk. pose proof (Generate_Rules_keyed t fs k d Hk) as [Hentry Hid].
  split; [done|]. split; [done|].
  split; [by apply catalog_entry_Some in Hentry as [? _]|].
  split; [by apply (Hsub k d)|].
  intros k' [d' Hk']%elem_of_dom. by apply (Hsub k' d').
Qed.

Lemma Generate_keyed_consistently_witness :
  ID (mkRuleDefinition "G101" "Look for hardcoded credentials" NewHardcodedCredentials)
  = "G101".
Proof.
  refine (proj1 (Generate_keyed_consistently true [] "G101"
                   (mkRuleDefinition "G101" "Look for hardcoded credentials"
                      NewHardcodedCredentials) _)).
  vm_compute. reflexivity.
Defined.

(** C10: with [trackSuppressions = false], for every sequence of filters the
    suppression ledger has an entry for each catalog ID, and a catalog ID is a
    key of [Rules] exactly when that entry is [false]: the stored value is
    [false], which is also what reading [RuleSuppressed[ID]] gives (a missing
    key would read [false] too, but the key is never missing); it is absent
    from [Rules] exactly when the stored value is [true]. *)
Theorem Generate_untracked_active_iff_unsuppressed (fs : list RuleFilter) (id : string) :
  id ∈ catalog_ids ->
  id ∈ dom (RuleSuppressed (Generate false fs))
  /\ (id ∈ dom (Rules (Generate false fs))
      <-> RuleSuppressed (Generate false fs) !! id = Some false)
  /\ (id ∈ dom (Rules (Generate false fs))
      <-> default false (RuleSuppressed (Generate false fs) !! id) = false)
  /\ (id ∉ dom (Rules (Generate false fs))
      <-> RuleSuppressed (Generate false fs) !! id = Some true).
Proof.
  intros Hin. rewrite Generate_Rules_dom_catalog by done.
  rewrite elem_of_dom, Generate_RuleSuppressed_catalog by done.
  unfold active. rewrite orb_false_r.
  split; [by eexists|].
  destruct (any_match fs id); simpl; repeat split; try done;
    (by intros [= ?]) || (by intros ?).
Qed.

Lemma Generate_untracked_active_iff_unsuppressed_witness :
  "G101" ∈ dom (RuleSuppressed (Generate false [NewRuleFilter true ["G101"]]))
  /\ ("G101" ∈ dom (Rules (Generate false [NewRuleFilter true ["G101"]]))
      <-> RuleSuppressed (Generate false [NewRuleFilter true ["G101"]]) !! "G101"
          = Some false)
  /\ ("G101" ∈ dom (Rules (Generate false [NewRuleFilter true ["G101"]]))
      <-> default false
            (RuleSuppressed (Generate false [NewRuleFilter true ["G101"]]) !! "G101")
          = false)
  /\ ("G101" ∉ dom (Rules (Generate false [NewRuleFilter true ["G101"]]))
      <-> RuleSuppressed (Generate false [NewRuleFilter true ["G101"]]) !! "G101"
          = Some true).
Proof.
  apply (Generate_untracked_active_iff_unsuppressed [NewRuleFilter true ["G101"]] "G101").
  apply (bool_decide_unpack _). vm_compute. exact I.
Defined.

(** ** Further properties of the filter predicate *)

Lemma any_match_cons (f : RuleFilter) (fs : list RuleFilter) (id : string) :
  any_match (f :: fs) id = f id || any_match fs id.
Proof. done. Qed.

(** [any_match] looks only at which filters occur in the sequence. *)
Lemma any_match_members (fs gs : list RuleFilter) (id : string) :
  (forall f, f ∈ fs <-> f ∈ gs) -> any_match fs id = any_match gs id.
Proof.
  intros Hsame.
  destruct (any_match fs id) eqn:Hfs, (any_match gs id) eqn:Hgs; try done.
  - apply any_match_true in Hfs as (f & Hf & Ht).
    rewrite any_match_false in Hgs. rewrite (Hgs f) in Ht; [done | by apply Hsame].
  - apply any_match_true in Hgs as (f & Hf & Ht).
    rewrite any_match_false in Hfs. rewrite (Hfs f) in Ht; [done | by apply Hsame].
Qed.

Lemma any_match_mono (fs gs : list RuleFilter) (id : string) :
  (forall f, f ∈ fs -> f ∈ gs) -> any_match fs id = true -> any_match gs id = true.
Proof.
  intros Hsub (f & Hf & Ht)%any_match_true. apply any_match_true. eauto.
Qed.

Lemma any_match_pointwise (fs gs : list RuleFilter) (id : string) :
  Forall2 (fun f g : RuleFilter => f id = g id) fs gs ->
  any_match fs id = any_match gs id.
Proof.
  induction 1 as [|f g fs gs Hfg _ IH]; [done|].
  by rewrite !any_match_cons, Hfg, IH.
Qed.

(** The filters in the middle of a sequence can be exchanged for others with
    the same OR on the catalog. *)
Lemma Generate_ext_middle (t : bool) (before after mid mid' : list RuleFilter) :
  (forall id, id ∈ catalog_ids -> any_match mid id = any_match mid' id) ->
  Generate t (before ++ mid ++ after) = Generate t (before ++ mid' ++ after).
Proof.
  intros Hmid. apply Generate_ext. intros id Hid.
  by rewrite !any_match_app, Hmid.
Qed.

Lemma Generate_Rules_dom_iff (t : bool) (fs : list RuleFilter) (id : string) :
  id ∈ dom (Rules (Generate t fs)) <-> id ∈ catalog_ids /\ active t fs id = true.
Proof.
  split.
  - intros [d Hd]%elem_of_dom.
    assert (Hin : id ∈ catalog_ids).
    { apply Generate_Rules_keyed in Hd as [[Hd' <-]%catalog_entry_Some _].
      by apply list_elem_of_fmap_2. }
    split; [done|]. apply Generate_Rules_dom_catalog; [done|].
    apply elem_of_dom. by exists d.
  - intros [Hin Hact]. by apply Generate_Rules_dom_catalog.
Qed.

(** X1: flipping the action flag of [NewRuleFilter] complements the predicate:
    on every string the include-only filter of a list returns the negation of
    what the exclude filter of the same list returns. *)
Theorem NewRuleFilter_complement (a : bool) (ids : list string) (x : string) :
  NewRuleFilter (negb a) ids x = negb (NewRuleFilter a ids x)
  /\ NewRuleFilter false ids x = negb (NewRuleFilter true ids x).
Proof.
  rewrite !NewRuleFilter_apply. by case_bool_decide; destruct a.
Qed.

(** X2: the predicate of [NewRuleFilter] depends on the ID list only through
    its set of members: two lists with the same members, in any order and with
    any repetitions, give the same predicate. *)
Theorem NewRuleFilter_members (a : bool) (ids ids' : list string) (x : string) :
  (forall y, y ∈ ids <-> y ∈ ids') ->
  NewRuleFilter a ids x = NewRuleFilter a ids' x.
Proof.
  intros Hsame. rewrite !NewRuleFilter_apply.
  do 2 case_bool_decide; try done; exfalso; naive_solver.
Qed.

Lemma NewRuleFilter_members_witness :
  NewRuleFilter true ["G101"; "G102"; "G101"] "G102"
  = NewRuleFilter true ["G102"; "G101"] "G102".
Proof.
  apply (NewRuleFilter_members true ["G101"; "G102"; "G101"] ["G102"; "G101"] "G102").
  intros y. rewrite !elem_of_cons, elem_of_nil. tauto.
Defined.

(** X3: with no IDs at all the map of [NewRuleFilter] is empty and the
    predicate is constant: the exclude filter matches nothing and the
    include-only filter matches every string. *)
Theorem NewRuleFilter_no_ids (a : bool) (x : string) :
  NewRuleFilter a [] x = negb a
  /\ NewRuleFilter true [] x = false
  /\ NewRuleFilter false [] x = true.
Proof.
  rewrite !NewRuleFilter_apply.
  rewrite bool_decide_eq_false_2 by apply not_elem_of_nil. done.
Qed.

(** X4: concatenating ID lists: an exclude filter of [ids1 ++ ids2] is the OR
    of the exclude filters of [ids1] and [ids2], and an include-only filter of
    [ids1 ++ ids2] is the AND of the two include-only filters. *)
Theorem NewRuleFilter_app (ids1 ids2 : list string) (x : string) :
  NewRuleFilter true (ids1 ++ ids2) x
  = NewRuleFilter true ids1 x || NewRuleFilter true ids2 x
  /\ NewRuleFilter false (ids1 ++ ids2) x
     = NewRuleFilter false ids1 x && NewRuleFilter false ids2 x.
Proof.
  rewrite !NewRuleFilter_apply.
  repeat case_bool_decide; rewrite elem_of_app in *; simpl; split; try done;
    exfalso; tauto.
Qed.

(** ** Further properties of [Generate] *)

Lemma active_no_filters (t : bool) (id : string) : active t [] id = true.
Proof. done. Qed.

(** X5: without filters nothing is suppressed, for either value of
    [trackSuppressions]: every catalog entry is stored in [Rules] under its ID
    with suppression flag [false], the keys of [Rules] are exactly the catalog
    IDs, and both values of the flag give the same [RuleList]. *)
Theorem Generate_no_filters (t : bool) :
  Forall (fun d => Rules (Generate t []) !! ID d = Some d
                   /\ RuleSuppressed (Generate t []) !! ID d = Some false) rules
  /\ dom (Rules (Generate t [])) = list_to_set catalog_ids
  /\ Generate true [] = Generate false [].
Proof.
  split; [|split].
  - apply Forall_forall. intros d Hd. split.
    + by rewrite Generate_Rules_catalog, active_no_filters.
    + rewrite Generate_RuleSuppressed_catalog; [done | by apply list_elem_of_fmap_2].
  - apply set_eq. intros k.
    rewrite Generate_Rules_dom_iff, elem_of_list_to_set, active_no_filters. tauto.
  - assert (HR : Rules (Generate true []) = Rules (Generate false [])).
    { apply map_eq. intros k. by rewrite !Generate_Rules_lookup. }
    assert (HS : RuleSuppressed (Generate true []) = RuleSuppressed (Generate false [])).
    { apply map_eq. intros k. by rewrite !Generate_RuleSuppressed_lookup. }
    destruct (Generate true []), (Generate false []). simpl in *. by subst.
Qed.

(** X6: for filters that are pure predicates (the value on an ID is the same
    at every call, as for the closures [NewRuleFilter] builds, and as the type
    [RuleFilter] has them here), the result of [Generate] depends on the filter
    sequence only through the set of filters in it: two sequences holding the
    same filters, in any order and with any repetitions, give the same
    [RuleList] (both maps). *)
Theorem Generate_filter_members (t : bool) (fs gs : list RuleFilter) :
  (forall f, f ∈ fs <-> f ∈ gs) ->
  Generate t fs = Generate t gs.
Proof.
  intros Hsame. apply Generate_ext. intros id _. by apply any_match_members.
Qed.

Lemma Generate_filter_members_witness :
  Generate false [NewRuleFilter true ["G101"]; NewRuleFilter false ["G102"];
                  NewRuleFilter true ["G101"]]
  = Generate false [NewRuleFilter false ["G102"]; NewRuleFilter true ["G101"]].
Proof.
  apply Generate_filter_members.
  intros f. rewrite !elem_of_cons, elem_of_nil. tauto.
Defined.

(** X7: [Generate] applies its filters to catalog IDs only: two sequences of
    filters that agree, position by position, on every catalog ID give the same
    [RuleList], whatever the filters return on other strings. *)
Theorem Generate_filters_on_catalog_only (t : bool) (fs gs : list RuleFilter) :
  Forall2 (fun f g : RuleFilter => forall id, id ∈ catalog_ids -> f id = g id) fs gs ->
  Generate t fs = Generate t gs.
Proof.
  intros Hagree. apply Generate_ext. intros id Hid.
  apply any_match_pointwise.
  induction Hagree as [|f g fs gs Hfg _ IH]; constructor; [by apply Hfg | done].
Qed.

Lemma Generate_filters_on_catalog_only_witness :
  Generate false [NewRuleFilter true ["G999"]] = Generate false [fun _ => false].
Proof.
  apply Generate_filters_on_catalog_only.
  constructor; [|constructor].
  intros id Hid. rewrite NewRuleFilter_apply.
  rewrite bool_decide_eq_false_2; [done|].
  intros Hin. apply elem_of_cons in Hin as [-> | Hin]; [|by apply elem_of_nil in Hin].
  revert Hid. apply (bool_decide_unpack _). vm_compute. exact I.
Defined.

(** X8: what [trackSuppressions] changes, for filters that are pure predicates
    (the value on an ID is the same at every call, as for the closures
    [NewRuleFilter] builds).  The suppression ledger is the same in both modes;
    in tracking mode the active set does not depend on the filters at all (it
    is the active set of a call without filters); and the active set with
    tracking off is the active set with tracking on restricted to the IDs whose
    flag is [false]. *)
Theorem Generate_tracking_modes (fs : list RuleFilter) :
  RuleSuppressed (Generate true fs) = RuleSuppressed (Generate false fs)
  /\ Rules (Generate true fs) = Rules (Generate false [])
  /\ Rules (Generate false fs)
     = filter (fun kd => RuleSuppressed (Generate false fs) !! kd.1 = Some false)
         (Rules (Generate true fs)).
Proof.
  split; [|split].
  - apply map_eq. intros k. by rewrite !Generate_RuleSuppressed_lookup.
  - apply map_eq. intros k. rewrite !Generate_Rules_lookup.
    destruct (catalog_entry rules k); [|done].
    unfold active. by rewrite orb_true_r.
  - apply map_eq. intros k. apply option_eq. intros d.
    rewrite map_lookup_filter_Some. cbn [fst].
    rewrite !Generate_Rules_lookup, Generate_RuleSuppressed_lookup.
    destruct (catalog_entry rules k) as [d'|] eqn:Hk.
    + apply catalog_entry_Some in Hk as [Hd' <-].
      rewrite bool_decide_eq_true_2 by by apply list_elem_of_fmap_2.
      unfold active. rewrite orb_true_r, orb_false_r.
      destruct (any_match fs (ID d')); simpl; naive_solver.
    + naive_solver.
Qed.

(** X9: for filters that are pure predicates (the value on an ID is the same
    at every call, as for the closures [NewRuleFilter] builds), more filters
    never activate a rule and never clear a flag: if every filter of [fs] also
    occurs in [gs], the active set of [gs] is contained in the active set of
    [fs] (same definitions under the same keys), and every ID flagged
    suppressed under [fs] is flagged suppressed under [gs]. *)
Theorem Generate_more_filters (t : bool) (fs gs : list RuleFilter) :
  (forall f, f ∈ fs -> f ∈ gs) ->
  Rules (Generate t gs) ⊆ Rules (Generate t fs)
  /\ forall id, RuleSuppressed (Generate t fs) !! id = Some true ->
                RuleSuppressed (Generate t gs) !! id = Some true.
Proof.
  intros Hsub. split.
  - apply map_subseteq_spec. intros k d. rewrite !Generate_Rules_lookup.
    destruct (catalog_entry rules k) as [d'|]; [|done].
    unfold active. destruct (any_match fs k) eqn:Hfs.
    + by rewrite (any_match_mono fs gs k Hsub Hfs).
    + simpl. by destruct (negb (any_match gs k) || t).
  - intros id. rewrite !Generate_RuleSuppressed_lookup.
    case_bool_decide; [|done]. intros [= Hfs].
    by rewrite (any_match_mono fs gs id Hsub Hfs).
Qed.

Lemma Generate_more_filters_witness :
  Rules (Generate false [NewRuleFilter true ["G101"]; NewRuleFilter true ["G204"]])
  ⊆ Rules (Generate false [NewRuleFilter true ["G101"]]).
Proof.
  refine (proj1 (Generate_more_filters false [NewRuleFilter true ["G101"]]
                   [NewRuleFilter true ["G101"]; NewRuleFilter true ["G204"]] _)).
  intros f Hf. apply elem_of_cons. left.
  apply elem_of_cons in Hf as [-> | Hf]; [done | by apply elem_of_nil in Hf].
Defined.

(** X10: an include-only filter together with an exclude filter, tracking off:
    an ID is active exactly when it is a catalog ID, is on the include list and
    is not on the exclude list (so exclusion wins over inclusion), in either
    order of the two filters. *)
Theorem Generate_include_and_exclude (incl excl : list string) (id : string) :
  (id ∈ dom (Rules (Generate false [NewRuleFilter false incl; NewRuleFilter true excl]))
   <-> id ∈ catalog_ids /\ id ∈ incl /\ id ∉ excl)
  /\ (id ∈ dom (Rules (Generate false [NewRuleFilter true excl; NewRuleFilter false incl]))
      <-> id ∈ catalog_ids /\ id ∈ incl /\ id ∉ excl).
Proof.
  rewrite !Generate_Rules_dom_iff. unfold active.
  rewrite !any_match_cons, !NewRuleFilter_apply. unfold any_match. simpl.
  do 2 case_bool_decide; simpl; naive_solver.
Qed.

Lemma NewRuleFilter_unknown_only (a : bool) (ids : list string) (id : string) :
  (forall x, x ∈ ids -> x ∉ catalog_ids) ->
  id ∈ catalog_ids -> NewRuleFilter a ids id = negb a.
Proof.
  intros Hunknown Hid. rewrite NewRuleFilter_apply.
  rewrite bool_decide_eq_false_2; [done|]. intros Hin. by apply (Hunknown id).
Qed.

(** X11: an exclude filter none of whose IDs is in the catalog (in particular
    one with no IDs) can be dropped from the filter sequence, wherever it
    stands: the [RuleList] is the same without it. *)
Theorem Generate_exclude_unknown_neutral (t : bool) (ids : list string)
    (before after : list RuleFilter) :
  (forall x, x ∈ ids -> x ∉ catalog_ids) ->
  Generate t (before ++ NewRuleFilter true ids :: after) = Generate t (before ++ after).
Proof.
  intros Hunknown.
  apply (Generate_ext_middle t before after [NewRuleFilter true ids] []).
  intros id Hid. rewrite any_match_single.
  by rewrite (NewRuleFilter_unknown_only true ids id).
Qed.

Lemma Generate_exclude_unknown_neutral_witness :
  Generate false ([NewRuleFilter true ["G101"]] ++ NewRuleFilter true ["G999"] :: [])
  = Generate false ([NewRuleFilter true ["G101"]] ++ []).
Proof.
  apply Generate_exclude_unknown_neutral.
  intros x Hx. apply elem_of_cons in Hx as [-> | Hx].
  - apply (bool_decide_unpack _). vm_compute. exact I.
  - by apply elem_of_nil in Hx.
Defined.

(** X12: an include-only filter none of whose IDs is in the catalog (in
    particular one with no IDs) suppresses the whole catalog, whatever other
    filters stand around it: every catalog flag is [true], with tracking off
    [Rules] is empty, and with tracking on [Rules] still holds every catalog
    ID. *)
Theorem Generate_include_unknown_suppresses_all (t : bool) (ids : list string)
    (before after : list RuleFilter) :
  (forall x, x ∈ ids -> x ∉ catalog_ids) ->
  Rules (Generate false (before ++ NewRuleFilter false ids :: after)) = ∅
  /\ dom (Rules (Generate true (before ++ NewRuleFilter false ids :: after)))
     = list_to_set catalog_ids
  /\ Forall (fun id => RuleSuppressed (Generate t (before ++ NewRuleFilter false ids :: after))
                         !! id = Some true) catalog_ids.
Proof.
  intros Hunknown.
  assert (Hall : forall id, id ∈ catalog_ids ->
            any_match (before ++ NewRuleFilter false ids :: after) id = true).
  { intros id Hid. rewrite any_match_app, any_match_cons.
    rewrite (NewRuleFilter_unknown_only false ids id) by done.
    simpl. apply orb_true_r. }
  split; [|split].
  - apply dom_empty_iff_L. apply set_eq. intros k.
    rewrite Generate_Rules_dom_iff. unfold active. split; [|set_solver].
    intros [Hk Hact]. rewrite (Hall k Hk) in Hact. done.
  - apply set_eq. intros k.
    rewrite Generate_Rules_dom_iff, elem_of_list_to_set. unfold active.
    rewrite orb_true_r. tauto.
  - apply Forall_forall. intros id Hid.
    by rewrite Generate_RuleSuppressed_catalog, Hall.
Qed.

Lemma Generate_include_unknown_suppresses_all_witness :
  Rules (Generate false ([] ++ NewRuleFilter false ["G999"] :: [])) = ∅.
Proof.
  refine (proj1 (Generate_include_unknown_suppresses_all false ["G999"] [] [] _)).
  intros x Hx. apply elem_of_cons in Hx as [-> | Hx].
  - apply (bool_decide_unpack _). vm_compute. exact I.
  - by apply elem_of_nil in Hx.
Defined.

(** X13: neighbouring filters of the same kind merge.  Two exclude filters act
    as one exclude filter of the concatenated ID lists; two include-only
    filters act as one include-only filter of the IDs the two lists share. *)
Theorem Generate_merge_filters (t : bool) (ids1 ids2 : list string)
    (before after : list RuleFilter) :
  Generate t (before ++ NewRuleFilter true ids1 :: NewRuleFilter true ids2 :: after)
  = Generate t (before ++ NewRuleFilter true (ids1 ++ ids2) :: after)
  /\ Generate t (before ++ NewRuleFilter false ids1 :: NewRuleFilter false ids2 :: after)
     = Generate t (before ++ NewRuleFilter false (filter (fun x => x ∈ ids2) ids1) :: after).
Proof.
  split.
  - apply (Generate_ext_middle t before after
             [NewRuleFilter true ids1; NewRuleFilter true ids2]
             [NewRuleFilter true (ids1 ++ ids2)]).
    intros id _. rewrite !any_match_cons, !NewRuleFilter_apply. unfold any_match. simpl.
    repeat case_bool_decide; rewrite elem_of_app in *; simpl; try done; exfalso; tauto.
  - apply (Generate_ext_middle t before after
             [NewRuleFilter false ids1; NewRuleFilter false ids2]
             [NewRuleFilter false (filter (fun x => x ∈ ids2) ids1)]).
    intros id _. rewrite !any_match_cons, !NewRuleFilter_apply. unfold any_match. simpl.
    repeat case_bool_decide; rewrite list_elem_of_filter in *; simpl; try done;
      exfalso; tauto.
Qed.

(** X14: with tracking off the catalog splits into the active rules and the
    suppressed ones: the number of keys of [Rules] plus the number of IDs
    flagged [true] in [RuleSuppressed] is the size of the catalog, 37. *)
Theorem Generate_untracked_partition (fs : list RuleFilter) :
  size (Rules (Generate false fs))
  + size (filter (fun kv => kv.2 = true) (RuleSuppressed (Generate false fs)))
  = 37.
Proof.
  rewrite <- (size_dom (D := gset string) (Rules (Generate false fs))).
  rewrite <- (size_dom (D := gset string)
                (filter (fun kv => kv.2 = true) (RuleSuppressed (Generate false fs)))).
  rewrite <- size_union.
  - rewrite <- (Generate_RuleSuppressed_size false fs). f_equal.
    apply set_eq. intros k.
    rewrite elem_of_union, Generate_Rules_dom_iff, !elem_of_dom.
    unfold is_Some. setoid_rewrite map_lookup_filter_Some.
    rewrite Generate_RuleSuppressed_lookup. unfold active. rewrite orb_false_r.
    case_bool_decide; destruct (any_match fs k); simpl; naive_solver.
  - intros k. rewrite Generate_Rules_dom_iff, elem_of_dom.
    unfold is_Some. setoid_rewrite map_lookup_filter_Some.
    rewrite Generate_RuleSuppressed_lookup. unfold active. rewrite orb_false_r.
    case_bool_decide; destruct (any_match fs k); simpl; naive_solver.
Qed.

Lemma catalog_ids_shape : Forall (fun id => is_rule_id id = true) catalog_ids.
Proof. apply (bool_decide_unpack _). vm_compute. exact I. Qed.

(** X15: every key [Generate] writes, in [RuleSuppressed] and so in [Rules],
    has the shape of a catalog ID (the letter G, a category digit from 1 to 6
    and two more decimal digits), for every flag and every filter sequence. *)
Theorem Generate_keys_shape (t : bool) (fs : list RuleFilter) (k : string) :
  k ∈ dom (RuleSuppressed (Generate t fs)) ∪ dom (Rules (Generate t fs)) ->
  is_rule_id k = true.
Proof.
  intros Hk.
  assert (Hin : k ∈ catalog_ids).
  { apply elem_of_union in Hk as [Hk | Hk].
    - by rewrite Generate_RuleSuppressed_dom, elem_of_list_to_set in Hk.
    - by apply Generate_Rules_dom_iff in Hk as [? _]. }
  pose proof catalog_ids_shape as Hshape.
  rewrite Forall_forall in Hshape. by apply Hshape.
Qed.

Lemma Generate_keys_shape_witness : is_rule_id "G101" = true.
Proof.
  apply (Generate_keys_shape false [] "G101").
  apply elem_of_union. left.
  rewrite Generate_RuleSuppressed_dom, elem_of_list_to_set.
  apply (bool_decide_unpack _). vm_compute. exact I.
Defined.

(** ** Further properties of [RulesInfo] *)

Lemma range_builders_lookup_inv (defs : list RuleDefinition)
    (b0 : gmap string RuleBuilder) (k : string) (b : RuleBuilder) :
  foldl (fun builders def => <[ID def := Create def]> builders) b0 defs !! k = Some b ->
  b0 !! k = Some b \/ exists d, d ∈ defs /\ ID d = k /\ Create d = b.
Proof.
  revert b0. induction defs as [|d defs IH]; intros b0; [by left|].
  cbn [foldl]. intros [Hb0 | (d' & Hd' & Hid & Hc)]%IH.
  - destruct (decide (ID d = k)) as [Hk | Hk].
    + rewrite <- Hk, lookup_insert_eq in Hb0. injection Hb0 as Hb.
      right. exists d. split; [by left | done].
    + rewrite lookup_insert_ne in Hb0 by done. by left.
  - right. exists d'. split; [by right | done].
Qed.

Lemma size_list_to_set_le (l : list string) :
  size (list_to_set l : gset string) <= length l.
Proof.
  induction l as [|x l IH].
  - rewrite list_to_set_nil, size_empty. done.
  - rewrite list_to_set_cons, size_union_alt, size_singleton. cbn [length].
    pose proof (subseteq_size (list_to_set l ∖ {[x]}) (list_to_set l : gset string)) as Hle.
    assert (Hsub : list_to_set l ∖ {[x]} ⊆ (list_to_set l : gset string)) by set_solver.
    specialize (Hle Hsub). lia.
Qed.

Lemma elem_of_values (m : gmap string RuleDefinition)
    (order : list (string * RuleDefinition)) (d : RuleDefinition) :
  order ≡ₚ map_to_list m ->
  d ∈ order.*2 <-> exists k, m !! k = Some d.
Proof.
  intros Hperm. rewrite list_elem_of_fmap. split.
  - intros ([k d'] & -> & Hin). exists k.
    apply elem_of_map_to_list. by rewrite <- Hperm.
  - intros [k Hk]. exists (k, d). split; [done|].
    rewrite Hperm. by apply elem_of_map_to_list.
Qed.

(** X16: what [RulesInfo] returns for an arbitrary [RuleList], whatever the
    order in which the map is visited: a string is a key of the constructor map
    exactly when it is the [ID] field of some stored definition (the keys of
    [Rules] play no part), every value is the [Create] field of a stored
    definition with that [ID], and the constructor map has at most as many
    entries as [Rules]. *)
Theorem RulesInfo_any_list (rl : RuleList) (order : list (string * RuleDefinition)) :
  order ≡ₚ map_to_list (Rules rl) ->
  (forall k, k ∈ dom (RulesInfo_in order rl).1
             <-> exists k' d, Rules rl !! k' = Some d /\ ID d = k)
  /\ (forall k b, (RulesInfo_in order rl).1 !! k = Some b ->
        exists k' d, Rules rl !! k' = Some d /\ ID d = k /\ Create d = b)
  /\ size (RulesInfo_in order rl).1 <= size (Rules rl).
Proof.
  intros Hperm. unfold RulesInfo_in. cbn [fst]. split; [|split].
  - intros k. rewrite range_builders_dom, elem_of_list_to_set, list_elem_of_fmap.
    split.
    + intros (d & -> & Hd). apply (elem_of_values _ _ _ Hperm) in Hd as [k' Hk'].
      by exists k', d.
    + intros (k' & d & Hk' & <-). exists d. split; [done|].
      apply (elem_of_values _ _ _ Hperm). by exists k'.
  - intros k b Hb. unfold range_builders in Hb.
    apply range_builders_lookup_inv in Hb as [Hb | (d & Hd & Hid & Hc)]; [done|].
    apply (elem_of_values _ _ _ Hperm) in Hd as [k' Hk']. by exists k', d.
  - rewrite <- (size_dom (D := gset string) (range_builders (order.*2))).
    rewrite range_builders_dom.
    etrans; [apply size_list_to_set_le|].
    by rewrite !length_fmap, Hperm, length_map_to_list.
Qed.

Lemma RulesInfo_any_list_witness :
  size (RulesInfo_in (map_to_list (Rules mislabelled_list)) mislabelled_list).1
  <= size (Rules mislabelled_list).
Proof.
  refine (proj2 (proj2 (RulesInfo_any_list mislabelled_list
                          (map_to_list (Rules mislabelled_list)) _))).
  reflexivity.
Defined.

(** X17: [Generate] followed by [RulesInfo], for any visiting order of the
    map: a catalog rule gets its own constructor in the first map exactly when
    no filter matches its ID or [trackSuppressions] is set, and its entry in
    the second map is the OR of the filters on its ID. *)
Theorem RulesInfo_of_Generate (t : bool) (fs : list RuleFilter)
    (order : list (string * RuleDefinition)) (d : RuleDefinition) :
  order ≡ₚ map_to_list (Rules (Generate t fs)) ->
  d ∈ rules ->
  (RulesInfo_in order (Generate t fs)).1 !! ID d
  = (if negb (any_match fs (ID d)) || t then Some (Create d) else None)
  /\ (RulesInfo_in order (Generate t fs)).2 !! ID d = Some (any_match fs (ID d)).
Proof.
  intros Hperm Hd. unfold RulesInfo_in. cbn [fst snd]. split.
  - rewrite (range_builders_keyed (Rules (Generate t fs)) order Hperm).
    + rewrite lookup_fmap, Generate_Rules_catalog by done. unfold active.
      by destruct (negb (any_match fs (ID d)) || t).
    + intros k d' Hk. by apply Generate_Rules_keyed in Hk as [_ ?].
  - apply Generate_RuleSuppressed_catalog. by apply list_elem_of_fmap_2.
Qed.

Lemma RulesInfo_of_Generate_witness :
  (RulesInfo_in (map_to_list (Rules (Generate false [NewRuleFilter true ["G101"]])))
     (Generate false [NewRuleFilter true ["G101"]])).2 !! "G101"
  = Some (any_match [NewRuleFilter true ["G101"]] "G101").
Proof.
  refine (proj2 (RulesInfo_of_Generate false [NewRuleFilter true ["G101"]]
                   (map_to_list (Rules (Generate false [NewRuleFilter true ["G101"]])))
                   (mkRuleDefinition "G101" "Look for hardcoded credentials"
                      NewHardcodedCredentials) _ _)).
  - reflexivity.
  - unfold rules. by left.
Defined.

(** X18: [RulesInfo] keys the constructor map by [def.ID], so when two
    definitions stored under different keys carry the same [ID] but different
    constructors, the later visited one overwrites the earlier: both visiting
    orders are possible for the map, and they give different constructor
    maps. *)
Theorem RulesInfo_order_matters_on_shared_ID (k1 k2 : string) (d1 d2 : RuleDefinition)
    (suppressed : gmap string bool) :
  k1 ≠ k2 -> ID d1 = ID d2 -> Create d1 ≠ Create d2 ->
  let rl := mkRuleList (<[k1 := d1]> {[k2 := d2]}) suppressed in
  [(k1, d1); (k2, d2)] ≡ₚ map_to_list (Rules rl)
  /\ [(k2, d2); (k1, d1)] ≡ₚ map_to_list (Rules rl)
  /\ (RulesInfo_in [(k1, d1); (k2, d2)] rl).1 !! ID d1 = Some (Create d2)
  /\ (RulesInfo_in [(k2, d2); (k1, d1)] rl).1 !! ID d1 = Some (Create d1)
  /\ (RulesInfo_in [(k1, d1); (k2, d2)] rl).1 ≠ (RulesInfo_in [(k2, d2); (k1, d1)] rl).1.
Proof.
  intros Hk Hid Hc rl.
  assert (H12 : [(k1, d1); (k2, d2)] ≡ₚ map_to_list (Rules rl)).
  { subst rl. cbn [Rules]. rewrite map_to_list_insert by by apply lookup_singleton_ne.
    by rewrite map_to_list_singleton. }
  assert (Hfst : (RulesInfo_in [(k1, d1); (k2, d2)] rl).1 !! ID d1 = Some (Create d2)).
  { unfold RulesInfo_in, range_builders. simpl. by rewrite Hid, lookup_insert_eq. }
  assert (Hsnd : (RulesInfo_in [(k2, d2); (k1, d1)] rl).1 !! ID d1 = Some (Create d1)).
  { unfold RulesInfo_in, range_builders. simpl. by rewrite lookup_insert_eq. }
  split; [done|]. split; [by rewrite <- H12; apply perm_swap|].
  split; [done|]. split; [done|].
  intros Heq. rewrite Heq, Hsnd in Hfst. by injection Hfst.
Qed.

Lemma RulesInfo_order_matters_on_shared_ID_witness :
  range_builders
    [mkRuleDefinition "G101" "first" NewHardcodedCredentials;
     mkRuleDefinition "G101" "second" NewUsingUnsafe] !! "G101"
  = Some NewUsingUnsafe.
Proof.
  refine (proj1 (proj2 (proj2
    (RulesInfo_order_matters_on_shared_ID "a" "b"
       (mkRuleDefinition "G101" "first" NewHardcodedCredentials)
       (mkRuleDefinition "G101" "second" NewUsingUnsafe) ∅ _ _ _)))).
  - discriminate.
  - reflexivity.
  - discriminate.
Defined.

(** ** How the inner loop ends *)

(** X19: the three ways the filter loop of one rule ends.  With tracking on it
    always runs to its end.  With tracking off, if some filter of the sequence
    matches the ID the loop leaves through [continue RULES] with the flag set
    to [true], whatever the other filters are; and in either mode, if no filter
    matches, it runs to its end and leaves the ledger as it found it. *)
Theorem filters_loop_exits (t : bool) (id : string) (filters : list RuleFilter)
    (ruleSuppressedMap : gmap string bool) :
  (filters_loop true id filters ruleSuppressedMap).2 = true
  /\ ((exists f, f ∈ filters /\ f id = true) ->
      filters_loop false id filters ruleSuppressedMap
      = (<[id := true]> ruleSuppressedMap, false))
  /\ ((forall f, f ∈ filters -> f id = false) ->
      filters_loop t id filters ruleSuppressedMap = (ruleSuppressedMap, true)).
Proof.
  rewrite !filters_loop_spec. split; [|split].
  - apply orb_true_r.
  - intros Hm%any_match_true. by rewrite Hm.
  - intros Hm%any_match_false. by rewrite Hm.
Qed.

Lemma filters_loop_exits_witness :
  filters_loop false "G101" [NewRuleFilter true ["G102"]; NewRuleFilter true ["G101"]] ∅
  = (<["G101" := true]> ∅, false).
Proof.
  refine (proj1 (proj2 (filters_loop_exits false "G101"
                          [NewRuleFilter true ["G102"]; NewRuleFilter true ["G101"]] ∅)) _).
  exists (NewRuleFilter true ["G101"]). split.
  - right. by left.
  - vm_compute. reflexivity.
Defined.
